(** * socks: a pub/sub relay over websockets

    A shallow embedding of [socks/server.py]: the publish endpoint
    ([Server.send_handler]), the subscriber session ([Server.ws_handler]),
    the fan-out ([Server.send_channels]) and [wrap_send], together with the
    Python values and primitives these functions rely on. *)

From stdpp Require Import gmap strings list fin_maps.
From Stdlib Require Import ZArith.

Local Open Scope string_scope.
Local Open Scope list_scope.
Local Open Scope stdpp_scope.

(** ** Values produced by [json.loads] *)

(** [None], [bool], [int], [str], [list] and [dict].  Numbers are the
    integers; a dict is the list of its items in insertion order. *)
Local Unset Elimination Schemes.
Inductive json : Type :=
| JNull
| JBool (b : bool)
| JNum (n : Z)
| JStr (s : string)
| JArr (items : list json)
| JObj (items : list (string * json)).
Local Set Elimination Schemes.

(** The hashable values: what a Python [set] can hold.  [True] and [1]
    (and [False] and [0]) are equal and hash alike, so a bool is stored as
    its number. *)
Inductive pykey : Type :=
| KNone
| KNum (n : Z)
| KStr (s : string).

Global Instance pykey_eq_dec : EqDecision pykey.
Proof. solve_decision. Defined.

Definition pykey_enc (k : pykey) : unit + (Z + string) :=
  match k with
  | KNone => inl tt
  | KNum n => inr (inl n)
  | KStr s => inr (inr s)
  end.

Definition pykey_dec (x : unit + (Z + string)) : pykey :=
  match x with
  | inl _ => KNone
  | inr (inl n) => KNum n
  | inr (inr s) => KStr s
  end.

Global Instance pykey_countable : Countable pykey.
Proof. by apply (inj_countable' pykey_enc pykey_dec); intros []. Defined.

(** ** Exceptions *)

Inductive exn : Type :=
| JSONDecodeError
| TypeError
| AttributeError
| KeyError
| ConnectionResetError
| RuntimeError
| HTTPUnauthorized
| HTTPBadRequest
| HTTPCreated.

Global Instance exn_eq_dec : EqDecision exn.
Proof. solve_decision. Defined.

(** The outcome of evaluating an expression: a value or a raised
    exception. *)
Inductive Res (A : Type) : Type :=
| Val (a : A)
| Raise (e : exn).
Arguments Val {A} a.
Arguments Raise {A} e.

(** ** Python primitives on parsed values *)

Module Py.

(** [bool(x)], as used by [not x]. *)
Definition truthy (x : json) : bool :=
  match x with
  | JNull => false
  | JBool b => b
  | JNum n => negb (n =? 0)%Z
  | JStr s => negb (String.eqb s EmptyString)
  | JArr l => match l with [] => false | _ => true end
  | JObj l => match l with [] => false | _ => true end
  end.

(** [hash(x)]: lists and dicts are unhashable. *)
Definition hashable (x : json) : Res pykey :=
  match x with
  | JNull => Val KNone
  | JBool b => Val (KNum (if b then 1 else 0))
  | JNum n => Val (KNum n)
  | JStr s => Val (KStr s)
  | JArr _ | JObj _ => Raise TypeError
  end.

Fixpoint set_of_list (l : list json) : Res (gset pykey) :=
  match l with
  | [] => Val ∅
  | x :: rest =>
      match hashable x with
      | Raise e => Raise e
      | Val k =>
          match set_of_list rest with
          | Raise e => Raise e
          | Val s => Val ({[k]} ∪ s)
          end
      end
  end.

(** The characters of a [str], each a [str] of length one. *)
Fixpoint chars (s : string) : list string :=
  match s with
  | EmptyString => []
  | String c rest => String c EmptyString :: chars rest
  end.

(** [set(x)]: the elements of a list, the characters of a str, the keys
    of a dict; anything else is not iterable. *)
Definition set (x : json) : Res (gset pykey) :=
  match x with
  | JArr l => set_of_list l
  | JStr s => Val (list_to_set (KStr <$> chars s))
  | JObj kv => Val (list_to_set (KStr <$> kv.*1))
  | JNull | JBool _ | JNum _ => Raise TypeError
  end.

(** [isinstance(x, list)]. *)
Definition is_list (x : json) : bool :=
  match x with JArr _ => true | _ => false end.

Definition is_dict (x : json) : bool :=
  match x with JObj _ => true | _ => false end.

Fixpoint assoc (k : string) (kv : list (string * json)) : option json :=
  match kv with
  | [] => None
  | (k', v) :: rest => if String.eqb k k' then Some v else assoc k rest
  end.

(** [x.get(k, d)]: only a dict has the attribute [get]. *)
Definition get (x : json) (k : string) (d : json) : Res json :=
  match x with
  | JObj kv => Val (default d (assoc k kv))
  | _ => Raise AttributeError
  end.

(** [needle in hay] on two strs: substring search. *)
Fixpoint substring (needle hay : string) : bool :=
  String.prefix needle hay ||
  match hay with
  | EmptyString => false
  | String _ rest => substring needle rest
  end.

Definition eq_str (k : string) (x : json) : bool :=
  match x with JStr s => String.eqb k s | _ => false end.

(** [k in x] for a str [k]: key of a dict, element of a list, substring
    of a str; the other values are not containers. *)
Definition contains (x : json) (k : string) : Res bool :=
  match x with
  | JObj kv => Val (bool_decide (is_Some (assoc k kv)))
  | JArr l => Val (existsb (eq_str k) l)
  | JStr s => Val (substring k s)
  | JNull | JBool _ | JNum _ => Raise TypeError
  end.

(** [x[k]] for a str [k]: a dict looks the key up; a list or a str
    accepts only integer indices. *)
Definition getitem (x : json) (k : string) : Res json :=
  match x with
  | JObj kv => match assoc k kv with Some v => Val v | None => Raise KeyError end
  | _ => Raise TypeError
  end.

End Py.

(** ** The server and its environment *)

(** Object references: websockets and sockets are compared by identity. *)
Abbreviation ref := nat.

(** Modelled from the spec: the class [Socket] of module [socket_], which
    is imported by [server.py] and not part of the sources: a connection
    holds its websocket and its current channel set, and its [send] writes
    the event to the transport through [wrap_send]. *)
Record Socket : Type := mkSocket {
  sock_ws : ref;
  channels : gset pykey;
}.

(** What [send_json] puts on the wire: an acknowledgment
    [{"success": False, "error": msg}], an acknowledgment
    [{"success": True, "channels": list(S)}] (the order of the list is the
    set's iteration order), or a published event as it is. *)
Inductive Frame : Type :=
| AckError (msg : string)
| AckOk (chs : gset pykey)
| Event (ev : json).

(** The transport under a websocket: open, reset by the peer (a write
    raises [ConnectionResetError]), or failing otherwise (a write raises
    some other exception). *)
Inductive Transport : Type :=
| TOpen
| TReset
| TFail.

(** Observable effects, in the order they happen. *)
Inductive Effect : Type :=
| Sent (ws : ref) (f : Frame)
| Logged (e : exn)
| BodyRead.

(** A fan-out scheduled with [loop.create_task]. *)
Abbreviation Task := (gset pykey * json)%type.

Record Server : Type := mkServer {
  secret : string;
  websockets : gset ref;
  sockets : gset ref;
  loop : list Task;
  port : Z;
}.

(** The server, the [Socket] objects, the state of the transports, the
    local variable [socket] of every running [ws_handler] (keyed by the
    handler's websocket), the effects so far and the next unused
    reference. *)
Record World : Type := mkWorld {
  srv : Server;
  heap : gmap ref Socket;
  net : gmap ref Transport;
  handlers : gmap ref (option ref);
  trace : list Effect;
  next_ref : ref;
}.

(** [Server.__init__]. *)
Definition Server_init (secret : string) (port : Z) : Server :=
  mkServer secret ∅ ∅ [] port.

Definition World_init (secret : string) : World :=
  mkWorld (Server_init secret 9093) ∅ ∅ ∅ [] 0.

Definition with_srv (f : Server → Server) (w : World) : World :=
  mkWorld (f (srv w)) (heap w) (net w) (handlers w) (trace w) (next_ref w).
Definition with_heap (f : gmap ref Socket → gmap ref Socket) (w : World) : World :=
  mkWorld (srv w) (f (heap w)) (net w) (handlers w) (trace w) (next_ref w).
Definition with_net (f : gmap ref Transport → gmap ref Transport) (w : World) : World :=
  mkWorld (srv w) (heap w) (f (net w)) (handlers w) (trace w) (next_ref w).
Definition with_handlers (f : gmap ref (option ref) → gmap ref (option ref))
    (w : World) : World :=
  mkWorld (srv w) (heap w) (net w) (f (handlers w)) (trace w) (next_ref w).
Definition with_trace (f : list Effect → list Effect) (w : World) : World :=
  mkWorld (srv w) (heap w) (net w) (handlers w) (f (trace w)) (next_ref w).
Definition with_next_ref (f : ref → ref) (w : World) : World :=
  mkWorld (srv w) (heap w) (net w) (handlers w) (trace w) (f (next_ref w)).

Definition set_websockets (f : gset ref → gset ref) (s : Server) : Server :=
  mkServer (secret s) (f (websockets s)) (sockets s) (loop s) (port s).
Definition set_sockets (f : gset ref → gset ref) (s : Server) : Server :=
  mkServer (secret s) (websockets s) (f (sockets s)) (loop s) (port s).
Definition set_loop (f : list Task → list Task) (s : Server) : Server :=
  mkServer (secret s) (websockets s) (sockets s) (f (loop s)) (port s).

Definition status (w : World) (ws : ref) : Transport :=
  default TOpen (net w !! ws).

(** The frames written to websocket [ws] so far. *)
Definition outbox (w : World) (ws : ref) : list Frame :=
  omap (λ e, match e with
             | Sent ws' f => if decide (ws' = ws) then Some f else None
             | _ => None
             end) (trace w).

(** ** Computations: state passing with exceptions *)

Definition M (A : Type) : Type := World → Res A * World.

Global Instance M_ret : MRet M := λ A a w, (Val a, w).
Global Instance M_bind : MBind M := λ A B f m w,
  match m w with
  | (Val a, w') => f a w'
  | (Raise e, w') => (Raise e, w')
  end.

Definition raise {A} (e : exn) : M A := λ w, (Raise e, w).
Definition lift {A} (r : Res A) : M A := λ w, (r, w).
Definition gets {A} (f : World → A) : M A := λ w, (Val (f w), w).
Definition modify (f : World → World) : M unit := λ w, (Val tt, f w).

(** [try: body except Exception as error: handler(error)]. *)
Definition try_except {A} (body : M A) (handler : exn → M A) : M A := λ w,
  match body w with
  | (Val a, w') => (Val a, w')
  | (Raise e, w') => handler e w'
  end.

(** [try: body except cls: pass]. *)
Definition try_pass (cls : exn) (body : M unit) : M unit := λ w,
  match body w with
  | (Val a, w') => (Val a, w')
  | (Raise e, w') => if decide (e = cls) then (Val tt, w') else (Raise e, w')
  end.

(** ** Transport and sockets *)

(** [websocket.send_json(data)]: the frame reaches the peer when the
    transport is open, and the write raises otherwise. *)
Definition send_json (websocket : ref) (data : Frame) : M unit := λ w,
  match status w websocket with
  | TOpen => (Val tt, with_trace (λ t, t ++ [Sent websocket data]) w)
  | TReset => (Raise ConnectionResetError, w)
  | TFail => (Raise RuntimeError, w)
  end.

(** [wrap_send(coro)]: the returned [predicate] awaits [coro(data)] and
    passes over a [ConnectionResetError]. *)
Definition wrap_send (coro : Frame → M unit) : Frame → M unit :=
  λ data, try_pass ConnectionResetError (coro data).

(** Modelled from the spec: [Socket.from_websocket] of the missing module
    [socket_] builds a new connection for the websocket with the given
    channel set. *)
Definition Socket_from_websocket (websocket : ref) (channels_set : gset pykey)
    : M ref := λ w,
  let socket := next_ref w in
  (Val socket,
   with_next_ref S (with_heap <[socket := mkSocket websocket channels_set]> w)).

(** Modelled from the spec: [Socket.send] of the missing module [socket_]
    writes the event to the connection's transport, a reset transport
    being passed over silently: [wrap_send] around the websocket's
    [send_json]. *)
Definition Socket_send (socket : Socket) (event : json) : M unit :=
  wrap_send (send_json (sock_ws socket)) (Event event).

(** [socket.channels = channels_set]. *)
Definition set_channels (socket : ref) (channels_set : gset pykey) : M unit :=
  modify (with_heap (alter (λ o, mkSocket (sock_ws o) channels_set) socket)).

(** [self.sockets.add(socket)]. *)
Definition sockets_add (socket : ref) : M unit :=
  modify (with_srv (set_sockets (λ s, {[socket]} ∪ s))).

(** [self.sockets.remove(socket)]: [set.remove] raises [KeyError] when the
    element is absent. *)
Definition sockets_remove (socket : ref) : M unit := λ w,
  if decide (socket ∈ sockets (srv w))
  then (Val tt, with_srv (set_sockets (λ s, s ∖ {[socket]})) w)
  else (Raise KeyError, w).

(** [_log.warning(...)] of the exception's traceback. *)
Definition log_warning (error : exn) : M unit :=
  modify (with_trace (λ t, t ++ [Logged error])).

(** ** The fan-out: [Server.send_channels] *)

(** The registry's connections with their objects, in the set's iteration
    order. *)
Definition registered (w : World) : list (ref * Socket) :=
  omap (λ r, (λ o, (r, o)) <$> heap w !! r) (elements (sockets (srv w))).

(** The condition of the comprehension: [channels & socket.channels] is a
    non-empty set. *)
Definition interested (chs : gset pykey) (socket : Socket) : bool :=
  bool_decide (chs ∩ channels socket ≠ ∅).

(** [socket for socket in self.sockets if channels & socket.channels]. *)
Definition matching (w : World) (chs : gset pykey) : list (ref * Socket) :=
  filter (λ p, interested chs p.2 = true) (registered w).

(** Running the awaitables of a [gather]: each one runs to its own result
    or exception. *)
Fixpoint run_all (coros : list (M unit)) (w : World) : list (Res unit) * World :=
  match coros with
  | [] => ([], w)
  | c :: rest =>
      let '(r, w1) := c w in
      let '(rs, w2) := run_all rest w1 in
      (r :: rs, w2)
  end.

(** [asyncio.gather] over [coros] with [return_exceptions=True]:
    exceptions are results, not raised. *)
Definition gather (coros : list (M unit)) : M (list (Res unit)) := λ w,
  let '(rs, w') := run_all coros w in (Val rs, w').

Definition send_channels (chs : gset pykey) (event : json)
    : M (list (Res unit)) :=
  targets ← gets (λ w, matching w chs);
  gather ((λ p, Socket_send p.2 event) <$> targets).

(** ** The subscriber session: [Server.ws_handler] *)

Inductive WSMsgType : Type :=
| TEXT | BINARY | PING | PONG | CLOSE | CLOSING | CLOSED | ERROR.

(** A message yielded by [async for message in websocket]: its type and
    the outcome of [message.json()], [None] standing for a
    [json.JSONDecodeError]. *)
Record WSMessage : Type := mkMessage {
  msg_type : WSMsgType;
  msg_json : option json;
}.

(** How one round of the loop ends: the next message is awaited, or the
    handler returns. *)
Inductive Flow : Type :=
| Continue
| Return.

(** The handler's local variable [socket]. *)
Definition get_socket (websocket : ref) : M (option ref) :=
  gets (λ w, mjoin (handlers w !! websocket)).

Definition set_socket (websocket : ref) (socket : option ref) : M unit :=
  modify (with_handlers <[websocket := socket]>).

(** The body of the [try] statement for one message. *)
Definition ws_try (websocket : ref) (message : WSMessage) : M Flow :=
  match msg_type message with
  | CLOSE =>
      socket ← get_socket websocket;
      match socket with
      | Some s => sockets_remove s
      | None => mret tt
      end;;
      mret Return
  | TEXT =>
      match msg_json message with
      | None =>
          send_json websocket (AckError "Invalid JSON.");;
          mret Continue
      | Some data =>
          chs ← lift (Py.get data "channels" (JArr []));
          channels_set ← lift (Py.set chs);
          if negb (Py.truthy chs) then
            send_json websocket (AckError "No channels provided.");;
            mret Continue
          else if negb (Py.is_list chs) then
            send_json websocket (AckError "Channels must be an array.");;
            mret Continue
          else
            socket ← get_socket websocket;
            match socket with
            | None =>
                s ← Socket_from_websocket websocket channels_set;
                set_socket websocket (Some s);;
                sockets_add s
            | Some s => set_channels s channels_set
            end;;
            send_json websocket (AckOk channels_set);;
            mret Continue
      end
  | _ => mret Continue
  end.

(** One round of the loop: the [try] with its [except Exception], which
    logs the exception and goes on with the next message. *)
Definition ws_body (websocket : ref) (message : WSMessage) : M Flow :=
  try_except (ws_try websocket message)
             (λ error, log_warning error;; mret Continue).

(** The handler's frame is gone once it has returned. *)
Definition ws_exit (websocket : ref) : M unit :=
  modify (with_handlers (delete websocket)).

(** The handler up to its loop: a new websocket, [socket = None], and
    [self.websockets.add(websocket)]. *)
Definition ws_open : M ref := λ w,
  let websocket := next_ref w in
  (Val websocket,
   with_srv (set_websockets (λ s, {[websocket]} ∪ s))
     (with_handlers <[websocket := None]> (with_next_ref S w))).

(** One message of a running handler: the round, and the exit when the
    round returns. *)
Definition ws_message (websocket : ref) (message : WSMessage) : M Flow :=
  flow ← ws_body websocket message;
  match flow with
  | Return => ws_exit websocket;; mret Return
  | Continue => mret Continue
  end.

(** The loop over the messages the websocket yields; the iteration ends
    with the list, when the transport is gone.  The loop body is run on
    whatever the list holds; what aiohttp's iterator really yields of the
    messages received is [yielded] below, which never holds a message of
    type CLOSE. *)
Fixpoint ws_loop (websocket : ref) (messages : list WSMessage) : M unit :=
  match messages with
  | [] => ws_exit websocket
  | message :: rest =>
      flow ← ws_message websocket message;
      match flow with
      | Return => mret tt
      | Continue => ws_loop websocket rest
      end
  end.

Definition ws_handler (messages : list WSMessage) : M unit :=
  websocket ← ws_open;
  ws_loop websocket messages.

(** ** The publish endpoint: [Server.send_handler] *)

(** A request: its [Authorization] header, if any, and the outcome of
    [req.json()], [None] standing for a [json.JSONDecodeError]. *)
Record Request : Type := mkRequest {
  Authorization : option string;
  body : option json;
}.

(** [await req.json()]: reads and parses the body. *)
Definition req_json (req : Request) : M json := λ w,
  let w' := with_trace (λ t, t ++ [BodyRead]) w in
  match body req with
  | Some data => (Val data, w')
  | None => (Raise JSONDecodeError, w')
  end.

(** [self.loop.create_task(...)]. *)
Definition create_task (task : Task) : M unit :=
  modify (with_srv (set_loop (λ l, l ++ [task]))).

Definition send_handler (req : Request) : M unit :=
  key ← gets (λ w, secret (srv w));
  if bool_decide (Authorization req ≠ Some key) then raise HTTPUnauthorized else
  data ← req_json req;
  has_channels ← lift (Py.contains data "channels");
  missing ← (if negb has_channels then mret true
             else has_event ← lift (Py.contains data "event");
                  mret (negb has_event));
  if (missing : bool) then raise HTTPBadRequest else
  chs ← lift (Py.getitem data "channels");
  empty ← (if negb (Py.truthy chs) then mret true
           else ev ← lift (Py.getitem data "event");
                mret (negb (Py.truthy ev)));
  if (empty : bool) then raise HTTPBadRequest else
  channels_set ← lift (Py.set chs);
  event ← lift (Py.getitem data "event");
  create_task (channels_set, event);;
  raise HTTPCreated.

(** ** The server as a transition system *)

(** The event loop runs one scheduled fan-out. *)
Definition run_task (before after : list Task) (task : Task) : M (list (Res unit)) :=
  modify (with_srv (set_loop (λ _, before ++ after)));;
  send_channels task.1 task.2.

(** A handler is running while its frame exists. *)
Definition running (w : World) (websocket : ref) : Prop :=
  is_Some (handlers w !! websocket).

Inductive step : World → World → Prop :=
| step_connect w :
    step w (ws_open w).2
| step_message w websocket message :
    running w websocket →
    step w (ws_message websocket message w).2
| step_end w websocket :
    running w websocket →
    step w (ws_exit websocket w).2
| step_publish w req :
    step w (send_handler req w).2
| step_task w before task after :
    loop (srv w) = before ++ task :: after →
    step w (run_task before after task w).2
| step_net w websocket t :
    step w (with_net <[websocket := t]> w).

Definition reachable (key : string) (w : World) : Prop :=
  rtc step (World_init key) w.

(** ** Notions used in the statements *)

(** [m] never changes the part [proj] of the world, whether it returns or
    raises. *)
Definition preserves {A B} (proj : World → B) (m : M A) : Prop :=
  ∀ w, proj (m w).2 = proj w.

(** The set of websocket handles. *)
Definition handles (w : World) : gset ref := websockets (srv w).

(** The transports that take a write. *)
Definition live (w : World) (p : ref * Socket) : Prop :=
  status w (sock_ws p.2) = TOpen.

Global Instance live_dec w p : Decision (live w p).
Proof. unfold live. destruct (status w (sock_ws p.2)); solve_decision. Defined.

(** The result of one [Socket.send]: a write, a reset passed over, or the
    exception of a failing transport. *)
Definition send_result (w : World) (p : ref * Socket) : Res unit :=
  match status w (sock_ws p.2) with
  | TOpen | TReset => Val tt
  | TFail => Raise RuntimeError
  end.

Definition sent_event (event : json) (p : ref * Socket) : Effect :=
  Sent (sock_ws p.2) (Event event).

(** A declaration as the specification words it: the field [channels] is
    there and is a non-empty sequence of strings. *)
Definition is_str (x : json) : bool :=
  match x with JStr _ => true | _ => false end.

Definition declares_strings (data : json) : bool :=
  match data with
  | JObj kv =>
      match Py.assoc "channels" kv with
      | Some (JArr (c :: l)) => forallb is_str (c :: l)
      | _ => false
      end
  | _ => false
  end.

(** A publish body as the specification words it: it parses, and has a
    non-empty sequence of strings as [channels] and a non-empty [event]. *)
Definition valid_publish (body : option json) : bool :=
  match body with
  | Some (JObj kv) =>
      match Py.assoc "channels" kv, Py.assoc "event" kv with
      | Some (JArr (c :: l)), Some ev => forallb is_str (c :: l) && Py.truthy ev
      | _, _ => false
      end
  | _ => false
  end.

(** ** Sample inputs *)

Definition subscribe (l : list json) : WSMessage :=
  mkMessage TEXT (Some (JObj [("channels", JArr l)])).

Definition close_frame : WSMessage := mkMessage CLOSE None.

(** A server that already holds the websocket handle [7]. *)
Definition world_one_handle : World :=
  with_next_ref (λ _, 8) (with_srv (set_websockets (λ _, {[7]})) (World_init "k")).

Definition publish_a : json :=
  JObj [("channels", JArr [JStr "a"]); ("event", JObj [("x", JNum 1)])].

(** Three subscribers: X (websocket 0, connection 1) on [a], Y (websocket
    2, connection 3) on [c], Z (websocket 4, connection 5) on [a] and
    [z]. *)
Definition world_xyz : World :=
  let w := (ws_open (World_init "k")).2 in
  let w := (ws_message 0 (subscribe [JStr "a"]) w).2 in
  let w := (ws_open w).2 in
  let w := (ws_message 2 (subscribe [JStr "c"]) w).2 in
  let w := (ws_open w).2 in
  (ws_message 4 (subscribe [JStr "a"; JStr "z"]) w).2.

Definition event_x : json := JObj [("x", JNum 1)].

(** ** The session's effects and the shape of reachable worlds *)

(** The part of the world the handlers and the fan-out read: the
    handles, the registry, the connections, the handlers' local variable
    and the next reference. *)
Definition core (w : World)
    : gset ref * gset ref * gmap ref Socket * gmap ref (option ref) * ref :=
  (websockets (srv w), sockets (srv w), heap w, handlers w, next_ref w).

(** The world after the registration of a new connection for
    [websocket]. *)
Definition register (websocket : ref) (chs : gset pykey) (w : World) : World :=
  with_srv (set_sockets (λ s, {[next_ref w]} ∪ s))
    (with_handlers <[websocket := Some (next_ref w)]>
       (with_next_ref S (with_heap <[next_ref w := mkSocket websocket chs]> w))).

(** The world after [socket.channels = chs]. *)
Definition update (socket : ref) (chs : gset pykey) (w : World) : World :=
  with_heap (alter (λ o, mkSocket (sock_ws o) chs) socket) w.

(** What a message that is no close frame can do, apart from the frames
    and warnings [l] it adds to the trace: nothing, the registration of a
    new connection with a non-empty channel set, or a new non-empty
    channel set for the session's connection. *)
Inductive data_effect (websocket : ref) (w : World) : World → Prop :=
| effect_none l :
    data_effect websocket w (with_trace (λ t, t ++ l) w)
| effect_register chs l :
    mjoin (handlers w !! websocket) = None →
    chs ≠ ∅ →
    data_effect websocket w (with_trace (λ t, t ++ l) (register websocket chs w))
| effect_update socket chs l :
    mjoin (handlers w !! websocket) = Some socket →
    chs ≠ ∅ →
    data_effect websocket w (with_trace (λ t, t ++ l) (update socket chs w)).

(** The shape of the worlds the server can be in. *)
Record wf (w : World) : Prop := mkWf {
  wf_handles : ∀ ws, ws ∈ websockets (srv w) → ws < next_ref w;
  wf_heap : ∀ s o, heap w !! s = Some o →
    s < next_ref w ∧ sock_ws o ∈ websockets (srv w) ∧ channels o ≠ ∅;
  wf_registry : ∀ s, s ∈ sockets (srv w) → is_Some (heap w !! s);
  wf_running : ∀ ws, is_Some (handlers w !! ws) → ws ∈ websockets (srv w);
  wf_local : ∀ ws s, handlers w !! ws = Some (Some s) →
    s ∈ sockets (srv w) ∧ ∃ o, heap w !! s = Some o ∧ sock_ws o = ws;
  wf_owner : ∀ s o, heap w !! s = Some o →
    handlers w !! sock_ws o ≠ Some None
    ∧ ∀ s', handlers w !! sock_ws o = Some (Some s') → s' = s;
  wf_inj : ∀ s1 s2 o1 o2, heap w !! s1 = Some o1 → heap w !! s2 = Some o2 →
    sock_ws o1 = sock_ws o2 → s1 = s2;
}.

Global Instance WSMsgType_eq_dec : EqDecision WSMsgType.
Proof. solve_decision. Defined.

(** The configuration given to [Server.__init__]. *)
Definition config (w : World) : string * Z := (secret (srv w), port (srv w)).

Definition no_close (messages : list WSMessage) : Prop :=
  Forall (λ message, msg_type message ≠ CLOSE) messages.

(** What [async for message in websocket] hands to the loop body of the
    messages the websocket receives: aiohttp's iterator ends the iteration
    at the first message of type CLOSE, CLOSING or CLOSED, and does not
    yield it. *)
Definition ends_iteration (t : WSMsgType) : bool :=
  match t with
  | CLOSE | CLOSING | CLOSED => true
  | _ => false
  end.

Fixpoint yielded (received : list WSMessage) : list WSMessage :=
  match received with
  | [] => []
  | message :: rest =>
      if ends_iteration (msg_type message) then []
      else message :: yielded rest
  end.

(** ** The entry point: [setup_logging] of [__main__.py] *)

Module Main.

(** The root logger as [setup_logging] sees it: its handlers, in order,
    the handlers closed so far, the level of the logger [socks] and the
    next handler to be created. *)
Record Logging : Type := mkLogging {
  root_handlers : list nat;
  closed : gset nat;
  socks_level : option string;
  next_handler : nat;
}.

(** How a block ends: normally, or with an exception. *)
Inductive Exit : Type :=
| Normal
| Raised (what : string).

(** [list.remove(x)]: the first occurrence goes. *)
Fixpoint remove_first (h : nat) (l : list nat) : list nat :=
  match l with
  | [] => []
  | x :: rest => if decide (x = h) then rest else x :: remove_first h rest
  end.

(** [logger.addHandler(h)]: appended unless it is there already. *)
Definition addHandler (h : nat) (st : Logging) : Logging :=
  if decide (h ∈ root_handlers st) then st
  else mkLogging (root_handlers st ++ [h]) (closed st) (socks_level st)
         (next_handler st).

(** [logger.removeHandler(h)]: removed if it is there. *)
Definition removeHandler (h : nat) (st : Logging) : Logging :=
  if decide (h ∈ root_handlers st)
  then mkLogging (remove_first h (root_handlers st)) (closed st)
         (socks_level st) (next_handler st)
  else st.

(** [handler.close()]. *)
Definition close (h : nat) (st : Logging) : Logging :=
  mkLogging (root_handlers st) ({[h]} ∪ closed st) (socks_level st)
    (next_handler st).

(** The [finally] block: the loop runs over a copy of the handlers. *)
Fixpoint cleanup_loop (copy : list nat) (st : Logging) : Logging :=
  match copy with
  | [] => st
  | handler :: rest => cleanup_loop rest (removeHandler handler (close handler st))
  end.

Definition cleanup (st : Logging) : Logging :=
  cleanup_loop (root_handlers st) st.

(** [with setup_logging(): block].  The level of [socks] is set; in the
    [try], the file handler is created (which fails when the file cannot
    be opened) and added, and the block runs at the [yield]; the [finally]
    cleans up in every case, and an exception goes on to the caller. *)
Definition setup_logging (file_opens : bool) (block : Logging → Exit * Logging)
    (st : Logging) : Exit * Logging :=
  let st1 := mkLogging (root_handlers st) (closed st) (Some "INFO")
               (next_handler st) in
  if file_opens then
    let handler := next_handler st1 in
    let st2 := mkLogging (root_handlers st1) (closed st1) (socks_level st1)
                 (S handler) in
    let '(exit, st3) := block (addHandler handler st2) in
    (exit, cleanup st3)
  else (Raised "OSError", cleanup st1).

End Main.

(** * Properties *)

(** ** What a computation leaves alone *)

Section Preserves.
Context {B : Type} (proj : World → B).

Lemma preserves_ret {A} (a : A) : preserves proj (mret a).
Proof. by intros w. Qed.

Lemma preserves_raise {A} e : preserves proj (@raise A e).
Proof. by intros w. Qed.

Lemma preserves_lift {A} (r : Res A) : preserves proj (lift r).
Proof. by intros w. Qed.

Lemma preserves_gets {A} (f : World → A) : preserves proj (gets f).
Proof. by intros w. Qed.

Lemma preserves_modify f :
  (∀ w, proj (f w) = proj w) → preserves proj (modify f).
Proof. intros Hf w. apply Hf. Qed.

Lemma preserves_bind {A C} (m : M A) (k : A → M C) :
  preserves proj m → (∀ a, preserves proj (k a)) → preserves proj (m ≫= k).
Proof.
  intros Hm Hk w. unfold mbind, M_bind.
  specialize (Hm w). destruct (m w) as [[a|e] w1]; simpl in *.
  - by rewrite Hk.
  - done.
Qed.

Lemma preserves_try_except {A} (m : M A) (h : exn → M A) :
  preserves proj m → (∀ e, preserves proj (h e)) → preserves proj (try_except m h).
Proof.
  intros Hm Hh w. unfold try_except.
  specialize (Hm w). destruct (m w) as [[a|e] w1]; simpl in *.
  - done.
  - by rewrite Hh.
Qed.

Lemma preserves_try_pass cls (m : M unit) :
  preserves proj m → preserves proj (try_pass cls m).
Proof.
  intros Hm w. unfold try_pass.
  specialize (Hm w). destruct (m w) as [[a|e] w1]; simpl in *; [done|].
  by case_decide.
Qed.

Lemma preserves_run_all (coros : list (M unit)) w :
  Forall (preserves proj) coros → proj (run_all coros w).2 = proj w.
Proof.
  intros H. revert w. induction H as [|c rest Hc _ IH]; intros w; [done|].
  simpl. specialize (Hc w). destruct (c w) as [r w1]. simpl in Hc.
  specialize (IH w1). destruct (run_all rest w1) as [rs w2]. simpl in *.
  congruence.
Qed.

Lemma preserves_gather (coros : list (M unit)) :
  Forall (preserves proj) coros → preserves proj (gather coros).
Proof.
  intros H w. unfold gather.
  pose proof (preserves_run_all coros w H) as Hr.
  by destruct (run_all coros w).
Qed.
End Preserves.

Create HintDb frame.
#[local] Hint Resolve preserves_ret preserves_raise preserves_lift
  preserves_gets preserves_try_pass : frame.

(** Walks through a computation, one construct at a time. *)
Ltac frame_step :=
  match goal with
  | |- preserves _ (_ ≫= _) => apply preserves_bind; [|intros ?]
  | |- preserves _ (try_except _ _) => apply preserves_try_except; [|intros ?]
  | |- preserves _ (modify _) => apply preserves_modify; intros ?; reflexivity
  | |- preserves _ (match ?x with _ => _ end) => destruct x
  | |- preserves _ ?m => solve [eauto with frame]
  end.
Ltac frame := repeat frame_step.

(** ** The set of websocket handles *)

Lemma send_json_handles websocket data : preserves handles (send_json websocket data).
Proof. intros w. unfold send_json. by destruct (status w websocket). Qed.

Lemma sockets_remove_handles socket : preserves handles (sockets_remove socket).
Proof. intros w. unfold sockets_remove. by case_decide. Qed.

Lemma Socket_from_websocket_handles websocket chs :
  preserves handles (Socket_from_websocket websocket chs).
Proof. by intros w. Qed.

Lemma req_json_handles req : preserves handles (req_json req).
Proof. intros w. unfold req_json. by destruct (body req). Qed.

#[local] Hint Resolve send_json_handles sockets_remove_handles
  Socket_from_websocket_handles req_json_handles : frame.

Lemma ws_message_handles websocket message :
  preserves handles (ws_message websocket message).
Proof.
  unfold ws_message, ws_body, ws_try, ws_exit, log_warning, get_socket,
    set_socket, sockets_add, set_channels.
  frame.
Qed.

Lemma send_handler_handles req : preserves handles (send_handler req).
Proof. unfold send_handler, create_task. frame. Qed.

Lemma send_channels_handles chs event :
  preserves handles (send_channels chs event).
Proof.
  unfold send_channels. frame. apply preserves_gather.
  apply Forall_fmap, Forall_true. intros p. unfold Socket_send, wrap_send. simpl.
  frame.
Qed.

Lemma step_handles w w' : step w w' → handles w ⊆ handles w'.
Proof.
  destruct 1 as [w|w ws m _|w ws _|w req|w before task after _|w ws t].
  - unfold handles. simpl. set_solver.
  - by rewrite ws_message_handles.
  - done.
  - by rewrite send_handler_handles.
  - assert (preserves handles (run_task before after task)) as ->; [|done].
    unfold run_task. frame. apply send_channels_handles.
  - done.
Qed.

(** C9: along every run of the server the set [self.websockets] only
    grows: a websocket handle, once added by a connecting subscriber, is in
    the set for good, whatever happens afterwards (messages, close frames,
    the end of the handler, publishes, fan-outs, transport failures). *)
Theorem websockets_never_shrink (w w' : World) :
  rtc step w w' → websockets (srv w) ⊆ websockets (srv w').
Proof.
  induction 1 as [w|w w1 w2 Hstep _ IH]; [done|].
  etrans; [|exact IH]. by apply step_handles.
Qed.

(** A subscriber connects and closes at once: its handle and the former
    one are both there afterwards. *)
Lemma websockets_never_shrink_witness :
  websockets (srv world_one_handle)
  ⊆ websockets (srv (ws_message 8 close_frame (ws_open world_one_handle).2).2).
Proof.
  apply websockets_never_shrink.
  eapply rtc_l; [apply step_connect|].
  apply rtc_once. apply step_message.
  exists None. reflexivity.
Defined.

(** ** The publish endpoint *)

(** C4: a publish request whose [Authorization] header is not exactly the
    configured secret (or is absent) raises [HTTPUnauthorized] and leaves
    the world as it was: the body is not read, nothing is scheduled and
    nothing is sent. *)
Theorem send_handler_unauthorized (w : World) (req : Request) :
  Authorization req ≠ Some (secret (srv w)) →
  send_handler req w = (Raise HTTPUnauthorized, w).
Proof.
  intros Hne. unfold send_handler, mbind, M_bind, gets. simpl.
  by rewrite bool_decide_eq_true_2.
Qed.

Lemma send_handler_unauthorized_witness :
  send_handler (mkRequest (Some "wrong") (Some publish_a)) (World_init "k")
  = (Raise HTTPUnauthorized, World_init "k").
Proof. apply send_handler_unauthorized. simpl. discriminate. Defined.

(** ** The fan-out *)

Lemma elem_of_registered w r o :
  (r, o) ∈ registered w ↔ r ∈ sockets (srv w) ∧ heap w !! r = Some o.
Proof.
  unfold registered. rewrite list_elem_of_omap. split.
  - intros (r' & Hin & Heq). apply elem_of_elements in Hin.
    destruct (heap w !! r') as [o'|] eqn:Hr'; simplify_eq/=. done.
  - intros [Hin Hr]. exists r. rewrite elem_of_elements, Hr. done.
Qed.

Lemma registered_refs w :
  (registered w).*1 = filter (λ r, is_Some (heap w !! r)) (elements (sockets (srv w))).
Proof.
  unfold registered. induction (elements (sockets (srv w))) as [|r l IH]; [done|].
  rewrite filter_cons.
  destruct (decide (is_Some (heap w !! r))) as [[o Hr]|Hr].
  - simpl. rewrite Hr. simpl. by f_equal.
  - simpl. destruct (heap w !! r) as [o|]; [by destruct Hr|done].
Qed.

Lemma NoDup_matching w chs : NoDup (matching w chs).*1.
Proof.
  apply (sublist_NoDup _ (registered w).*1).
  - rewrite registered_refs. apply NoDup_filter, NoDup_elements.
  - apply fmap_sublist, sublist_filter.
Qed.

Lemma elem_of_matching w chs r o :
  (r, o) ∈ matching w chs ↔
  r ∈ sockets (srv w) ∧ heap w !! r = Some o ∧ chs ∩ channels o ≠ ∅.
Proof.
  unfold matching, interested. rewrite list_elem_of_filter, elem_of_registered.
  simpl. rewrite bool_decide_eq_true. tauto.
Qed.

Lemma with_trace_nil w : with_trace (λ t, t ++ []) w = w.
Proof. destruct w. unfold with_trace. simpl. by rewrite app_nil_r. Qed.

Lemma with_trace_trace l1 l2 w :
  with_trace (λ t, t ++ l2) (with_trace (λ t, t ++ [l1]) w)
  = with_trace (λ t, t ++ l1 :: l2) w.
Proof. unfold with_trace. simpl. by rewrite <-app_assoc. Qed.

Lemma Socket_send_run o event w :
  Socket_send o event w =
  match status w (sock_ws o) with
  | TOpen => (Val tt, with_trace (λ t, t ++ [Sent (sock_ws o) (Event event)]) w)
  | TReset => (Val tt, w)
  | TFail => (Raise RuntimeError, w)
  end.
Proof.
  unfold Socket_send, wrap_send, try_pass, send_json.
  by destruct (status w (sock_ws o)).
Qed.

Lemma filter_live_cons w p rest :
  filter (live w) (p :: rest) =
  match status w (sock_ws p.2) with
  | TOpen => p :: filter (live w) rest
  | _ => filter (live w) rest
  end.
Proof.
  rewrite filter_cons. destruct (decide (live w p)) as [Hl|Hl]; unfold live in Hl.
  - by rewrite Hl.
  - by destruct (status w (sock_ws p.2)).
Qed.

Lemma run_all_sends event targets w :
  run_all ((λ p, Socket_send p.2 event) <$> targets) w =
  (send_result w <$> targets,
   with_trace (λ t, t ++ (sent_event event <$> filter (live w) targets)) w).
Proof.
  revert w. induction targets as [|p rest IH]; intros w.
  - simpl. by rewrite with_trace_nil.
  - rewrite !fmap_cons. cbn [run_all].
    rewrite Socket_send_run, filter_live_cons. unfold send_result at 1.
    destruct (status w (sock_ws p.2)); rewrite IH; [|done..].
    rewrite fmap_cons, with_trace_trace. done.
Qed.

Lemma send_channels_run chs event w :
  send_channels chs event w =
  (Val (send_result w <$> matching w chs),
   with_trace (λ t, t ++ (sent_event event <$> filter (live w) (matching w chs))) w).
Proof.
  unfold send_channels, mbind, M_bind, gets, gather. simpl.
  by rewrite run_all_sends.
Qed.

Lemma outbox_with_trace w websocket l :
  outbox (with_trace (λ t, t ++ l) w) websocket
  = outbox w websocket ++ outbox (with_trace (λ _, l) w) websocket.
Proof. unfold outbox. simpl. apply omap_app. Qed.

Lemma send_handler_net req w transports :
  (send_handler req (with_net (λ _, transports) w)).1 = (send_handler req w).1.
Proof.
  unfold send_handler, mbind, M_bind, gets, req_json, lift, raise, create_task,
    modify. simpl.
  repeat (case_match; simpl in *; simplify_eq); done.
Qed.

(** C1: a fan-out to the channel set [chs] writes the event to the
    connections of the registry whose channel set meets [chs], once each
    and to no other connection: the targets are exactly the registered
    connections with a common channel, without repetition, and the frames
    written are the event on the transport of each target that takes a
    write (a dead transport gets nothing, silently). *)
Theorem send_channels_exact (w : World) (chs : gset pykey) (event : json) :
  send_channels chs event w =
    (Val (send_result w <$> matching w chs),
     with_trace
       (λ t, t ++ (sent_event event <$> filter (live w) (matching w chs))) w)
  ∧ NoDup (matching w chs).*1
  ∧ ∀ r o, (r, o) ∈ matching w chs ↔
           r ∈ sockets (srv w) ∧ heap w !! r = Some o ∧ chs ∩ channels o ≠ ∅.
Proof.
  split; [apply send_channels_run|].
  split; [apply NoDup_matching|].
  intros r o. apply elem_of_matching.
Qed.

(** Publishing to [a] and [b] reaches X and Z, not Y. *)
Example fanout_xyz :
  let w := (send_channels {[KStr "a"; KStr "b"]} event_x world_xyz).2 in
  outbox w 0 = [AckOk {[KStr "a"]}; Event event_x]
  ∧ outbox w 2 = [AckOk {[KStr "c"]}]
  ∧ outbox w 4 = [AckOk {[KStr "a"; KStr "z"]}; Event event_x].
Proof. repeat split; vm_compute; reflexivity. Qed.

(** The same with the transport of X failing and that of Y reset: Z gets
    the event all the same, and the fan-out returns. *)
Example fanout_xyz_broken :
  let w0 := with_net (λ _, {[0 := TFail; 2 := TReset]}) world_xyz in
  let out := send_channels {[KStr "a"; KStr "c"]} event_x w0 in
  (∃ results, out.1 = Val results ∧ Raise RuntimeError ∈ results)
  ∧ outbox out.2 0 = [AckOk {[KStr "a"]}]
  ∧ outbox out.2 2 = [AckOk {[KStr "c"]}]
  ∧ outbox out.2 4 = [AckOk {[KStr "a"; KStr "z"]}; Event event_x].
Proof.
  split; [|repeat split; vm_compute; reflexivity].
  rewrite send_channels_run. eexists. split; [reflexivity|].
  apply list_elem_of_fmap. exists (1, mkSocket 0 {[KStr "a"]}). split; [done|].
  apply elem_of_matching. split; [|split].
  - by vm_compute.
  - reflexivity.
  - intros Hempty. assert (KStr "a" ∈ (∅ : gset pykey)) as Hin; [|set_solver].
    rewrite <-Hempty. simpl. set_solver.
Qed.

(** C8: a fan-out never raises, whatever the state of the transports: it
    returns one result per matched connection, a failed delivery being a
    result like any other; every matched connection whose transport takes
    the write gets the event, whatever happens to the other deliveries;
    and the response of the publish endpoint is the same for every state
    of the transports. *)
Theorem fanout_isolated (w : World) (chs : gset pykey) (event : json) :
  (∃ results, (send_channels chs event w).1 = Val results
              ∧ length results = length (matching w chs))
  ∧ (∀ r o, (r, o) ∈ matching w chs → status w (sock_ws o) = TOpen →
            Event event ∈ outbox (send_channels chs event w).2 (sock_ws o))
  ∧ (∀ req transports,
       (send_handler req (with_net (λ _, transports) w)).1
       = (send_handler req w).1).
Proof.
  rewrite send_channels_run. simpl. split; [|split].
  - eexists. split; [done|]. by rewrite length_fmap.
  - intros r o Hin Hopen. rewrite outbox_with_trace. apply elem_of_app. right.
    unfold outbox. simpl. apply list_elem_of_omap.
    exists (sent_event event (r, o)). split.
    + apply list_elem_of_fmap_2, list_elem_of_filter. done.
    + simpl. by rewrite decide_True.
  - intros req transports. apply send_handler_net.
Qed.

(** ** The subscriber session *)

Ltac run_handler :=
  unfold ws_message, ws_body, try_except, ws_try, ws_exit, mbind, M_bind, mret,
    M_ret, lift, gets, modify, get_socket, set_socket, log_warning, send_json,
    sockets_add, set_channels, Socket_from_websocket;
  simpl.

(** C10: a TEXT message that parses to a value other than an object (an
    array, a string, a number, a boolean or null) is answered by nothing:
    the [AttributeError] of [data.get] is logged, no frame is written to
    any websocket, the registry, the connections and the session are what
    they were, and the loop goes on with the next message. *)
Theorem non_object_message_ignored
    (w : World) (websocket : ref) (data : json) (rest : list WSMessage) :
  Py.is_dict data = false →
  let message := mkMessage TEXT (Some data) in
  let w' := with_trace (λ t, t ++ [Logged AttributeError]) w in
  ws_message websocket message w = (Val Continue, w')
  ∧ (∀ ws, outbox w' ws = outbox w ws)
  ∧ ws_loop websocket (message :: rest) w = ws_loop websocket rest w'.
Proof.
  intros Hdata message w'.
  assert (ws_message websocket message w = (Val Continue, w')) as Hrun.
  { destruct data; try discriminate; reflexivity. }
  split; [exact Hrun|]. split.
  - intros ws. unfold w'. rewrite outbox_with_trace. unfold outbox at 2. simpl.
    apply app_nil_r.
  - cbn [ws_loop]. unfold mbind at 1, M_bind at 1. rewrite Hrun. done.
Qed.

Lemma non_object_message_ignored_witness :
  let message := mkMessage TEXT (Some (JArr [JStr "a"])) in
  let w := (ws_open (World_init "k")).2 in
  let w' := with_trace (λ t, t ++ [Logged AttributeError]) w in
  ws_message 0 message w = (Val Continue, w')
  ∧ (∀ ws, outbox w' ws = outbox w ws)
  ∧ ws_loop 0 [message; close_frame] w = ws_loop 0 [close_frame] w'.
Proof.
  apply (non_object_message_ignored (ws_open (World_init "k")).2 0
           (JArr [JStr "a"]) [close_frame]).
  reflexivity.
Defined.

(** C7: when a subscribed connection declares a non-empty list of
    channels, its channel set afterwards is the set of that list and
    nothing else: the former set is replaced, not merged. *)
Theorem declaration_replaces_channels
    (w : World) (websocket socket : ref) (o : Socket)
    (kv : list (string * json)) (l : list json) (chs : gset pykey) :
  handlers w !! websocket = Some (Some socket) →
  heap w !! socket = Some o →
  Py.assoc "channels" kv = Some (JArr l) →
  l ≠ [] →
  Py.set (JArr l) = Val chs →
  heap (ws_message websocket (mkMessage TEXT (Some (JObj kv))) w).2 !! socket
  = Some (mkSocket (sock_ws o) chs).
Proof.
  intros Hlocal Hobj Hkv Hne Hset.
  run_handler. rewrite Hkv. simpl in *. rewrite Hset.
  destruct l as [|x l]; [done|]. simpl. rewrite Hlocal. simpl.
  assert (alter (λ o0, mkSocket (sock_ws o0) chs) socket (heap w) !! socket
          = Some (mkSocket (sock_ws o) chs)) as Hnew.
  { by rewrite lookup_alter_eq, Hobj. }
  unfold status. simpl. by destruct (default TOpen (net w !! websocket)).
Qed.

Lemma declaration_replaces_channels_witness :
  let w := (ws_message 0 (subscribe [JStr "a"]) (ws_open (World_init "k")).2).2 in
  heap (ws_message 0 (subscribe [JStr "b"; JStr "c"]) w).2 !! 1
  = Some (mkSocket 0 {[KStr "b"; KStr "c"]}).
Proof.
  apply (declaration_replaces_channels _ 0 1 (mkSocket 0 {[KStr "a"]})
           [("channels", JArr [JStr "b"; JStr "c"])] [JStr "b"; JStr "c"]).
  - reflexivity.
  - reflexivity.
  - reflexivity.
  - discriminate.
  - reflexivity.
Defined.

(** A list of numbers is no sequence of strings, and yet it is taken as a
    declaration: the subscriber is registered and gets the success
    acknowledgment. *)
Lemma numbers_are_accepted_as_channels :
  let w := (ws_open (World_init "k")).2 in
  let w' := (ws_message 0 (subscribe [JNum 1]) w).2 in
  declares_strings (JObj [("channels", JArr [JNum 1])]) = false
  ∧ trace w' = [Sent 0 (AckOk {[KNum 1]})]
  ∧ sockets (srv w) = ∅
  ∧ sockets (srv w') = {[1]}
  ∧ heap w' !! 1 = Some (mkSocket 0 {[KNum 1]}).
Proof. repeat split; reflexivity. Qed.

(** C6, as the code has it: for a TEXT message that parses to an object,
    on a transport that takes the reply, a [channels] field that is
    missing or is an empty array, an empty string or an empty object is
    answered by [No channels provided.], and one that is a non-empty
    string or a non-empty object by [Channels must be an array.]; in both
    cases nothing but the reply happens: the session, the registry and the
    connections are what they were. *)
Theorem bad_channels_refused
    (w : World) (websocket : ref) (kv : list (string * json)) :
  status w websocket = TOpen →
  let chs := default (JArr []) (Py.assoc "channels" kv) in
  let message := mkMessage TEXT (Some (JObj kv)) in
  let reply msg :=
    (Val Continue, with_trace (λ t, t ++ [Sent websocket (AckError msg)]) w) in
  (chs = JArr [] ∨ chs = JStr EmptyString ∨ chs = JObj [] →
   ws_message websocket message w = reply "No channels provided.")
  ∧ ((∃ c s, chs = JStr (String c s)) ∨ (∃ p l, chs = JObj (p :: l)) →
     ws_message websocket message w = reply "Channels must be an array.").
Proof.
  intros Hopen chs message reply. unfold reply, message. split.
  - intros H. run_handler. fold chs.
    destruct H as [-> | [-> | ->]]; simpl; by rewrite Hopen.
  - intros H. run_handler. fold chs.
    destruct H as [(c & s & ->) | (p & l & ->)]; simpl; by rewrite Hopen.
Qed.

Lemma bad_channels_refused_witness :
  let w := (ws_open (World_init "k")).2 in
  let reply msg :=
    (Val Continue, with_trace (λ t, t ++ [Sent 0 (AckError msg)]) w) in
  ws_message 0 (subscribe []) w = reply "No channels provided."
  ∧ ws_message 0 (mkMessage TEXT (Some (JObj [("channels", JStr "a")]))) w
    = reply "Channels must be an array.".
Proof.
  split.
  - apply (bad_channels_refused (ws_open (World_init "k")).2 0
             [("channels", JArr [])]); [reflexivity|]. by left.
  - apply (bad_channels_refused (ws_open (World_init "k")).2 0
             [("channels", JStr "a")]); [reflexivity|].
    left. by eexists _, _.
Defined.

(** When the loop body gets a message of type CLOSE, it takes the
    connection of a subscribed session out of the registry and the handler
    returns.  (The iteration of aiohttp does not yield such a message: see
    [yielded].) *)
Lemma close_frame_removes (w : World) (websocket socket : ref) :
  handlers w !! websocket = Some (Some socket) →
  socket ∈ sockets (srv w) →
  ws_message websocket close_frame w =
  (Val Return,
   with_handlers (delete websocket)
     (with_srv (set_sockets (λ s, s ∖ {[socket]})) w)).
Proof.
  intros Hlocal Hin. run_handler. rewrite Hlocal. simpl.
  unfold sockets_remove. by rewrite decide_True.
Qed.

(** A message of type ERROR takes nothing out of the registry: the round
    does nothing and the loop goes on. *)
Lemma error_message_skipped (w : World) (websocket : ref) :
  ws_message websocket (mkMessage ERROR None) w = (Val Continue, w).
Proof. reflexivity. Qed.

(** C2 fails on the code: a subscriber declares the channel [a] and its
    transport goes away, so that the iteration over the websocket ends
    without a close frame.  In this reachable state the handler has
    returned, and the connection is still in the registry, where the next
    fan-out to [a] finds it. *)
Theorem ended_session_stays_registered :
  let w := (ws_handler [subscribe [JStr "a"]] (World_init "k")).2 in
  reachable "k" w
  ∧ ¬ running w 0
  ∧ sockets (srv w) = {[1]}
  ∧ heap w !! 1 = Some (mkSocket 0 {[KStr "a"]})
  ∧ (matching w {[KStr "a"]}).*1 = [1].
Proof.
  split; [|split; [|repeat split; reflexivity]].
  - unfold reachable.
    eapply rtc_l; [apply step_connect|].
    eapply rtc_l; [apply (step_message _ 0 (subscribe [JStr "a"])); by eexists|].
    apply rtc_once. apply (step_end _ 0). by eexists.
  - intros [x Hx]. vm_compute in Hx. discriminate.
Qed.

(** ** Validation of a publish request *)

(** A publish whose [channels] is a list of numbers is not valid in the
    specification's sense, and yet it is accepted: the fan-out is
    scheduled and the response is [HTTPCreated]. *)
Lemma numbers_are_published :
  let data := JObj [("channels", JArr [JNum 1]); ("event", JObj [("x", JNum 1)])] in
  let out := send_handler (mkRequest (Some "k") (Some data)) (World_init "k") in
  valid_publish (Some data) = false
  ∧ out.1 = Raise HTTPCreated
  ∧ loop (srv out.2) = [({[KNum 1]}, JObj [("x", JNum 1)])].
Proof. repeat split; reflexivity. Qed.

(** C3, as the code has it: with the right secret, a body that parses to
    an object in which [channels] or [event] is missing, or in which
    [channels] or [event] is empty (falsy), raises [HTTPBadRequest]; the
    body has been read and nothing else has happened: no fan-out is
    scheduled. *)
Theorem send_handler_bad_request
    (w : World) (req : Request) (kv : list (string * json)) :
  Authorization req = Some (secret (srv w)) →
  body req = Some (JObj kv) →
  Py.assoc "channels" kv = None
  ∨ Py.assoc "event" kv = None
  ∨ (∃ c, Py.assoc "channels" kv = Some c ∧ Py.truthy c = false)
  ∨ (∃ ev, Py.assoc "event" kv = Some ev ∧ Py.truthy ev = false) →
  send_handler req w =
  (Raise HTTPBadRequest, with_trace (λ t, t ++ [BodyRead]) w).
Proof.
  intros Hauth Hbody Hbad.
  unfold send_handler, mbind, M_bind, mret, M_ret, gets, req_json, lift, raise,
    create_task, modify. simpl.
  rewrite bool_decide_eq_false_2 by (intros Hne; by apply Hne).
  rewrite Hbody. simpl.
  destruct (Py.assoc "channels" kv) as [c|] eqn:Hc; simpl; [|done].
  destruct (Py.assoc "event" kv) as [ev|] eqn:He; simpl; [|done].
  destruct (Py.truthy c) eqn:Htc; simpl; [|done].
  destruct (Py.truthy ev) eqn:Hte; simpl; [|done].
  exfalso. destruct Hbad as [?|[?|[(? & ? & ?)|(? & ? & ?)]]]; congruence.
Qed.

Lemma send_handler_bad_request_witness :
  send_handler
    (mkRequest (Some "k") (Some (JObj [("channels", JArr []); ("event", JNum 1)])))
    (World_init "k")
  = (Raise HTTPBadRequest, with_trace (λ t, t ++ [BodyRead]) (World_init "k")).
Proof.
  apply (send_handler_bad_request _ _ [("channels", JArr []); ("event", JNum 1)]).
  - reflexivity.
  - reflexivity.
  - right. right. left. by exists (JArr []).
Defined.


(** * Further properties of the code *)

(** ** One message of a session *)

Lemma set_raises_TypeError chs e : Py.set chs = Raise e → e = TypeError.
Proof.
  destruct chs as [| | | |l|]; simpl; try congruence.
  induction l as [|x l IH]; simpl; [congruence|].
  destruct x; simpl; try congruence;
    destruct (Py.set_of_list l); try congruence; auto.
Qed.

Lemma set_of_list_nonempty x l chs : Py.set_of_list (x :: l) = Val chs → chs ≠ ∅.
Proof.
  simpl. destruct (Py.hashable x); [|congruence].
  destruct (Py.set_of_list l); [|congruence].
  intros [= <-] Hempty. apply (not_elem_of_empty (C:=gset pykey) a).
  rewrite <-Hempty. apply elem_of_union_l. by apply elem_of_singleton.
Qed.

Lemma data_effect_refl websocket w : data_effect websocket w w.
Proof.
  pose proof (effect_none websocket w []) as H. by rewrite with_trace_nil in H.
Qed.

(** A message of type CLOSE: the handler returns, after the removal of the
    session's connection if there is one; a connection that is not in the
    registry makes [set.remove] raise, and the loop goes on. *)
Lemma ws_message_close websocket message w :
  msg_type message = CLOSE →
  ws_message websocket message w =
  match mjoin (handlers w !! websocket) with
  | None => (Val Return, with_handlers (delete websocket) w)
  | Some s =>
      if decide (s ∈ sockets (srv w))
      then (Val Return,
            with_handlers (delete websocket)
              (with_srv (set_sockets (λ x, x ∖ {[s]})) w))
      else (Val Continue, with_trace (λ t, t ++ [Logged KeyError]) w)
  end.
Proof.
  intros Hty. run_handler. rewrite Hty.
  destruct (mjoin (handlers w !! websocket)) as [s|]; [|done].
  unfold sockets_remove. by destruct (decide (s ∈ sockets (srv w))).
Qed.

(** Any other message: the loop goes on, and the world changes by a
    [data_effect]. *)
Lemma ws_message_data websocket message w :
  msg_type message ≠ CLOSE →
  ∃ w', ws_message websocket message w = (Val Continue, w')
        ∧ data_effect websocket w w'.
Proof.
  intros Hty. destruct message as [ty js]. simpl in Hty.
  destruct ty; try done;
    try (eexists; split; [reflexivity|apply data_effect_refl]).
  destruct js as [data|].
  2: { run_handler.
       destruct (status w websocket); eexists; (split; [reflexivity|]);
         apply effect_none. }
  destruct data as [| | | | |kv];
    try (eexists; split; [reflexivity|apply effect_none]).
  run_handler. generalize (default (JArr []) (Py.assoc "channels" kv)).
  intros chs. destruct (Py.set chs) as [channels_set|e] eqn:Hset.
  2: { eexists; split; [reflexivity|apply effect_none]. }
  destruct (Py.truthy chs) eqn:Htruthy; simpl.
  2: { destruct (status w websocket); eexists; (split; [reflexivity|]);
         apply effect_none. }
  destruct (Py.is_list chs) eqn:Hlist; simpl.
  2: { destruct (status w websocket); eexists; (split; [reflexivity|]);
         apply effect_none. }
  assert (channels_set ≠ ∅) as Hne.
  { destruct chs as [| | | |[|x l]|]; try discriminate.
    by apply (set_of_list_nonempty x l). }
  destruct (mjoin (handlers w !! websocket)) as [s|] eqn:Hlocal; simpl.
  - unfold status. simpl. fold (status w websocket).
    destruct (status w websocket); eexists; (split; [reflexivity|]);
      by apply (effect_update websocket w s channels_set).
  - unfold status. simpl. fold (status w websocket).
    destruct (status w websocket); eexists; (split; [reflexivity|]);
      by apply (effect_register websocket w channels_set).
Qed.

(** ** The shape of reachable worlds *)

Lemma wf_core w w' : core w = core w' → wf w → wf w'.
Proof.
  unfold core. intros [= Ha Hb Hc Hd He] [Hh Hp Hr Hrun Hl Ho Hi].
  constructor; rewrite <-?Ha, <-?Hb, <-?Hc, <-?Hd, <-?He; assumption.
Qed.

Lemma wf_init key : wf (World_init key).
Proof.
  constructor; simpl.
  - intros ws Hin. by apply not_elem_of_empty in Hin.
  - intros s o Hs. by rewrite lookup_empty in Hs.
  - intros s Hin. by apply not_elem_of_empty in Hin.
  - intros ws [x Hx]. by rewrite lookup_empty in Hx.
  - intros ws s Hx. by rewrite lookup_empty in Hx.
  - intros s o Hs. by rewrite lookup_empty in Hs.
  - intros s1 s2 o1 o2 Hs. by rewrite lookup_empty in Hs.
Qed.

Lemma wf_open w : wf w → wf (ws_open w).2.
Proof.
  intros [Hh Hp Hr Hrun Hl Ho Hi]. constructor; simpl.
  - intros ws [->%elem_of_singleton|Hin]%elem_of_union; [lia|].
    apply Hh in Hin. lia.
  - intros s o Hs. destruct (Hp s o Hs) as (? & ? & ?).
    split; [lia|]. split; [by apply elem_of_union_r|done].
  - done.
  - intros ws. destruct (decide (ws = next_ref w)) as [->|Hne].
    { intros _. apply elem_of_union_l. by apply elem_of_singleton. }
    rewrite lookup_insert_ne by done. intros ?%Hrun. by apply elem_of_union_r.
  - intros ws s. destruct (decide (ws = next_ref w)) as [->|Hne].
    + by rewrite lookup_insert_eq.
    + rewrite lookup_insert_ne by done. apply Hl.
  - intros s o Hs. destruct (Hp s o Hs) as (_ & Hin%Hh & _).
    rewrite lookup_insert_ne by lia. by apply Ho.
  - done.
Qed.

Lemma wf_exit websocket w : wf w → wf (with_handlers (delete websocket) w).
Proof.
  intros [Hh Hp Hr Hrun Hl Ho Hi]. constructor; simpl; try done.
  - intros ws [x Hx]. apply lookup_delete_Some in Hx as [_ Hx]. eauto.
  - intros ws s Hx. apply lookup_delete_Some in Hx as [_ Hx]. eauto.
  - intros s o Hs. destruct (Ho s o Hs) as [Hnone Hsome].
    destruct (decide (websocket = sock_ws o)) as [->|Hne].
    + rewrite lookup_delete_eq. done.
    + rewrite lookup_delete_ne by done. done.
Qed.

Lemma wf_remove websocket socket w :
  wf w → handlers w !! websocket = Some (Some socket) →
  wf (with_handlers (delete websocket)
        (with_srv (set_sockets (λ x, x ∖ {[socket]})) w)).
Proof.
  intros Hwf Hlocal. pose proof Hwf as [Hh Hp Hr Hrun Hl Ho Hi].
  constructor; simpl; try done.
  - intros s [Hin _]%elem_of_difference. by apply Hr.
  - intros ws [x Hx]. apply lookup_delete_Some in Hx as [_ Hx]. eauto.
  - intros ws s Hx. apply lookup_delete_Some in Hx as [Hne Hx].
    destruct (Hl ws s Hx) as [Hin (o & Hs & Hws)]. split; [|eauto].
    apply elem_of_difference. split; [done|]. intros ->%elem_of_singleton.
    destruct (Hl _ _ Hlocal) as [_ (o' & Hs' & Hws')]. congruence.
  - intros s o Hs. destruct (Ho s o Hs) as [Hnone Hsome].
    destruct (decide (websocket = sock_ws o)) as [->|Hne].
    + rewrite lookup_delete_eq. done.
    + rewrite lookup_delete_ne by done. done.
Qed.

Lemma wf_update socket chs w : wf w → chs ≠ ∅ → wf (update socket chs w).
Proof.
  intros [Hh Hp Hr Hrun Hl Ho Hi] Hne.
  assert (∀ s o, alter (λ o, mkSocket (sock_ws o) chs) socket (heap w) !! s
                 = Some o →
                 ∃ o', heap w !! s = Some o' ∧ sock_ws o' = sock_ws o
                       ∧ channels o ≠ ∅) as Hold.
  { intros s o. destruct (decide (s = socket)) as [->|Hs].
    - rewrite lookup_alter_eq. destruct (heap w !! socket) as [o'|] eqn:Ho';
        simpl; [|done]. intros [= <-]. eauto.
    - rewrite lookup_alter_ne by done. intros Hlook.
      destruct (Hp s o Hlook) as (_ & _ & ?). eauto. }
  constructor; simpl; try done.
  - intros s o (o' & Hs & Hws & Hch)%Hold.
    destruct (Hp s o' Hs) as (? & ? & _). rewrite <-Hws. done.
  - intros s Hin. destruct (Hr s Hin) as [o Hs].
    destruct (decide (s = socket)) as [->|Hne'].
    + rewrite lookup_alter_eq, Hs. by eexists.
    + rewrite lookup_alter_ne by done. by eexists.
  - intros ws s Hx. destruct (Hl ws s Hx) as [Hin (o & Hs & Hws)].
    split; [done|]. destruct (decide (s = socket)) as [->|Hne'].
    + exists (mkSocket (sock_ws o) chs). by rewrite lookup_alter_eq, Hs.
    + exists o. by rewrite lookup_alter_ne.
  - intros s o (o' & Hs & <- & _)%Hold. by apply Ho.
  - intros s1 s2 o1 o2 (o1' & Hs1 & <- & _)%Hold (o2' & Hs2 & <- & _)%Hold.
    by apply Hi.
Qed.

Lemma wf_register websocket chs w :
  wf w → handlers w !! websocket = Some None → chs ≠ ∅ →
  wf (register websocket chs w).
Proof.
  intros [Hh Hp Hr Hrun Hl Ho Hi] Hlocal Hne.
  assert (∀ s o, heap w !! s = Some o → s ≠ next_ref w ∧ sock_ws o ≠ websocket)
    as Hfresh.
  { intros s o Hs. destruct (Hp s o Hs) as (? & _ & _). split; [lia|].
    intros <-. by destruct (Ho s o Hs) as [? _]. }
  assert (∀ s o, <[next_ref w := mkSocket websocket chs]> (heap w) !! s = Some o →
                 (s = next_ref w ∧ o = mkSocket websocket chs)
                 ∨ (s ≠ next_ref w ∧ sock_ws o ≠ websocket ∧ heap w !! s = Some o))
    as Hcases.
  { intros s o. destruct (decide (s = next_ref w)) as [->|Hs].
    - rewrite lookup_insert_eq. intros [= <-]. by left.
    - rewrite lookup_insert_ne by done. intros Hlook. right.
      destruct (Hfresh s o Hlook). done. }
  constructor; simpl.
  - intros ws ?%Hh. lia.
  - intros s o [[-> ->]|(_ & _ & Hs)]%Hcases; simpl.
    + split; [lia|]. split; [|done]. apply Hrun. by eexists.
    + destruct (Hp s o Hs) as (? & ? & ?). split; [lia|done].
  - intros s [->%elem_of_singleton|Hin]%elem_of_union.
    + rewrite lookup_insert_eq. by eexists.
    + destruct (Hr s Hin) as [o Hs]. destruct (Hfresh s o Hs) as [? _].
      rewrite lookup_insert_ne by done. by eexists.
  - intros ws. destruct (decide (ws = websocket)) as [->|Hws].
    + intros _. apply Hrun. by eexists.
    + rewrite lookup_insert_ne by done. apply Hrun.
  - intros ws s. destruct (decide (ws = websocket)) as [->|Hws].
    + rewrite lookup_insert_eq. intros [= <-].
      split; [apply elem_of_union_l; by apply elem_of_singleton|].
      exists (mkSocket websocket chs). by rewrite lookup_insert_eq.
    + rewrite lookup_insert_ne by done. intros Hx.
      destruct (Hl ws s Hx) as [Hin (o & Hs & Hows)].
      split; [by apply elem_of_union_r|].
      exists o. destruct (Hfresh s o Hs) as [? _].
      by rewrite lookup_insert_ne.
  - intros s o [[-> ->]|(Hs' & Hws & Hs)]%Hcases; simpl.
    + rewrite lookup_insert_eq. split; [done|]. by intros s' [= <-].
    + rewrite lookup_insert_ne by done. by apply Ho.
  - intros s1 s2 o1 o2 H1 H2. apply Hcases in H1, H2.
    destruct H1 as [[-> ->]|(Hn1 & Hw1 & Hs1)],
             H2 as [[-> ->]|(Hn2 & Hw2 & Hs2)]; simpl; try congruence.
    by apply Hi.
Qed.

Lemma local_socket w websocket s :
  mjoin (handlers w !! websocket) = Some s ↔
  handlers w !! websocket = Some (Some s).
Proof. destruct (handlers w !! websocket) as [[s'|]|]; simpl; naive_solver. Qed.

Lemma local_none w websocket :
  running w websocket → mjoin (handlers w !! websocket) = None →
  handlers w !! websocket = Some None.
Proof.
  unfold running. destruct (handlers w !! websocket) as [[s'|]|]; simpl;
    [done|done|by intros [? ?]].
Qed.

Lemma send_json_core websocket data : preserves core (send_json websocket data).
Proof. intros w. unfold send_json. by destruct (status w websocket). Qed.

Lemma req_json_core req : preserves core (req_json req).
Proof. intros w. unfold req_json. by destruct (body req). Qed.

#[local] Hint Resolve send_json_core req_json_core : frame.

Lemma send_handler_core req : preserves core (send_handler req).
Proof. unfold send_handler, create_task. frame. Qed.

Lemma send_channels_core chs event : preserves core (send_channels chs event).
Proof.
  unfold send_channels. frame. apply preserves_gather.
  apply Forall_fmap, Forall_true. intros p. unfold Socket_send, wrap_send. simpl.
  frame.
Qed.

Lemma run_task_core before after task :
  preserves core (run_task before after task).
Proof. unfold run_task. frame. apply send_channels_core. Qed.

Lemma wf_message websocket message w :
  wf w → running w websocket → wf (ws_message websocket message w).2.
Proof.
  intros Hwf Hrun. destruct (decide (msg_type message = CLOSE)) as [Hty|Hty].
  - rewrite ws_message_close by done.
    destruct (mjoin (handlers w !! websocket)) as [s|] eqn:Hlocal.
    + apply local_socket in Hlocal. case_decide; simpl.
      * by apply wf_remove.
      * by apply (wf_core w).
    + by apply wf_exit.
  - destruct (ws_message_data websocket message w Hty) as (w' & -> & Heff).
    simpl. destruct Heff as [l|chs l Hlocal Hne|s chs l Hlocal Hne].
    + by apply (wf_core w).
    + apply (wf_core (register websocket chs w)); [done|].
      apply wf_register; [done| |done]. by apply local_none.
    + apply (wf_core (update s chs w)); [done|]. by apply wf_update.
Qed.

Lemma wf_step w w' : step w w' → wf w → wf w'.
Proof.
  destruct 1 as [w|w ws m Hrun|w ws _|w req|w before task after _|w ws t];
    intros Hwf.
  - by apply wf_open.
  - by apply wf_message.
  - by apply wf_exit.
  - apply (wf_core w); [|done]. symmetry. apply send_handler_core.
  - apply (wf_core w); [|done]. symmetry. apply run_task_core.
  - by apply (wf_core w).
Qed.

Lemma wf_steps w w' : rtc step w w' → wf w → wf w'.
Proof. induction 1; eauto using wf_step. Qed.

Lemma wf_reachable key w : reachable key w → wf w.
Proof. intros Hr. apply (wf_steps _ _ Hr), wf_init. Qed.

(** The three subscribers X, Y and Z are a state of the server. *)
Lemma reachable_xyz : reachable "k" world_xyz.
Proof.
  unfold reachable, world_xyz.
  eapply rtc_l; [apply step_connect|].
  eapply rtc_l; [apply (step_message _ 0 (subscribe [JStr "a"])); by eexists|].
  eapply rtc_l; [apply step_connect|].
  eapply rtc_l; [apply (step_message _ 2 (subscribe [JStr "c"])); by eexists|].
  eapply rtc_l; [apply step_connect|].
  apply rtc_once.
  apply (step_message _ 4 (subscribe [JStr "a"; JStr "z"])). by eexists.
Qed.

(** X1: in every state the server can reach, every connection of the
    registry is an existing connection with a non-empty channel set, bound
    to a websocket of [self.websockets]. *)
Theorem registered_channels_nonempty (key : string) (w : World) (s : ref) :
  reachable key w →
  s ∈ sockets (srv w) →
  ∃ o, heap w !! s = Some o ∧ channels o ≠ ∅
       ∧ sock_ws o ∈ websockets (srv w).
Proof.
  intros Hwf%wf_reachable Hin.
  destruct (wf_registry w Hwf s Hin) as [o Hs]. exists o.
  destruct (wf_heap w Hwf s o Hs) as (_ & ? & ?). done.
Qed.

Lemma registered_channels_nonempty_witness :
  ∃ o, heap world_xyz !! 5 = Some o ∧ channels o ≠ ∅
       ∧ sock_ws o ∈ websockets (srv world_xyz).
Proof.
  apply (registered_channels_nonempty "k" world_xyz 5).
  - exact reachable_xyz.
  - by vm_compute.
Defined.

(** X2: in every state the server can reach, the connection a running
    handler has declared is in the registry and is bound to the handler's
    own websocket. *)
Theorem declared_connection_registered
    (key : string) (w : World) (websocket s : ref) :
  reachable key w →
  handlers w !! websocket = Some (Some s) →
  s ∈ sockets (srv w) ∧ ∃ o, heap w !! s = Some o ∧ sock_ws o = websocket.
Proof. intros Hwf%wf_reachable Hlocal. by apply (wf_local w Hwf). Qed.

Lemma declared_connection_registered_witness :
  3 ∈ sockets (srv world_xyz)
  ∧ ∃ o, heap world_xyz !! 3 = Some o ∧ sock_ws o = 2.
Proof.
  apply (declared_connection_registered "k" world_xyz 2 3).
  - exact reachable_xyz.
  - reflexivity.
Defined.

(** X3: in every state the server can reach, two connections on the same
    websocket are the same connection: a websocket has at most one
    connection, ever. *)
Theorem one_connection_per_websocket
    (key : string) (w : World) (s1 s2 : ref) (o1 o2 : Socket) :
  reachable key w →
  heap w !! s1 = Some o1 → heap w !! s2 = Some o2 →
  sock_ws o1 = sock_ws o2 →
  s1 = s2.
Proof. intros Hwf%wf_reachable. apply (wf_inj w Hwf). Qed.

Lemma one_connection_per_websocket_witness : 1 = 1.
Proof.
  apply (one_connection_per_websocket "k" world_xyz 1 1
           (mkSocket 0 {[KStr "a"]}) (mkSocket 0 {[KStr "a"]})).
  - exact reachable_xyz.
  - reflexivity.
  - reflexivity.
  - reflexivity.
Defined.

(** ** More on the fan-out *)

Lemma outbox_events_absent event websocket (l : list (ref * Socket)) :
  websocket ∉ (λ p, sock_ws p.2) <$> l →
  omap (λ e, match e with
             | Sent ws' f => if decide (ws' = websocket) then Some f else None
             | _ => None
             end) (sent_event event <$> l) = [].
Proof.
  induction l as [|p l IH]; [done|]. rewrite !fmap_cons, not_elem_of_cons.
  intros [Hne Hnotin]. simpl. rewrite decide_False by done. by apply IH.
Qed.

Lemma outbox_events_once event websocket (l : list (ref * Socket)) :
  NoDup ((λ p, sock_ws p.2) <$> l) →
  omap (λ e, match e with
             | Sent ws' f => if decide (ws' = websocket) then Some f else None
             | _ => None
             end) (sent_event event <$> l) = []
  ∨ omap (λ e, match e with
               | Sent ws' f => if decide (ws' = websocket) then Some f else None
               | _ => None
               end) (sent_event event <$> l) = [Event event].
Proof.
  induction l as [|p l IH]; [by left|]. rewrite !fmap_cons, NoDup_cons.
  intros [Hnotin Hnd]. simpl.
  destruct (decide (sock_ws p.2 = websocket)) as [<-|Hne].
  - right. by rewrite outbox_events_absent.
  - by apply IH.
Qed.

Lemma NoDup_matching_websockets w chs :
  wf w → NoDup ((λ p, sock_ws p.2) <$> filter (live w) (matching w chs)).
Proof.
  intros Hwf. apply NoDup_fmap_2_strong.
  - intros [r1 o1] [r2 o2] [_ H1]%list_elem_of_filter [_ H2]%list_elem_of_filter Heq.
    apply elem_of_matching in H1 as (_ & H1 & _).
    apply elem_of_matching in H2 as (_ & H2 & _).
    simpl in Heq. assert (r1 = r2) as -> by exact (wf_inj w Hwf _ _ _ _ H1 H2 Heq).
    congruence.
  - apply NoDup_filter. apply (NoDup_fmap_1 fst). apply NoDup_matching.
Qed.

(** X5: in every state the server can reach, one fan-out writes the event
    at most once to any websocket: the frames of a websocket after the
    fan-out are those before, followed by the event or by nothing. *)
Theorem fanout_at_most_once
    (key : string) (w : World) (chs : gset pykey) (event : json) (websocket : ref) :
  reachable key w →
  let w' := (send_channels chs event w).2 in
  outbox w' websocket = outbox w websocket
  ∨ outbox w' websocket = outbox w websocket ++ [Event event].
Proof.
  intros Hwf%wf_reachable. simpl. rewrite send_channels_run. simpl.
  rewrite outbox_with_trace.
  set (extra := outbox (with_trace _ w) websocket).
  assert (extra = [] ∨ extra = [Event event]) as [-> | ->].
  { apply outbox_events_once. by apply NoDup_matching_websockets. }
  - left. apply app_nil_r.
  - by right.
Qed.

Lemma fanout_at_most_once_witness :
  let w' := (send_channels {[KStr "a"; KStr "z"]} event_x world_xyz).2 in
  outbox w' 4 = outbox world_xyz 4
  ∨ outbox w' 4 = outbox world_xyz 4 ++ [Event event_x].
Proof.
  apply (fanout_at_most_once "k" world_xyz {[KStr "a"; KStr "z"]} event_x 4).
  exact reachable_xyz.
Defined.

(** ** The configuration *)

Lemma send_json_config websocket data : preserves config (send_json websocket data).
Proof. intros w. unfold send_json. by destruct (status w websocket). Qed.

Lemma sockets_remove_config socket : preserves config (sockets_remove socket).
Proof. intros w. unfold sockets_remove. by case_decide. Qed.

Lemma Socket_from_websocket_config websocket chs :
  preserves config (Socket_from_websocket websocket chs).
Proof. by intros w. Qed.

Lemma req_json_config req : preserves config (req_json req).
Proof. intros w. unfold req_json. by destruct (body req). Qed.

#[local] Hint Resolve send_json_config sockets_remove_config
  Socket_from_websocket_config req_json_config : frame.

Lemma ws_message_config websocket message :
  preserves config (ws_message websocket message).
Proof.
  unfold ws_message, ws_body, ws_try, ws_exit, log_warning, get_socket,
    set_socket, sockets_add, set_channels.
  frame.
Qed.

Lemma send_handler_config req : preserves config (send_handler req).
Proof. unfold send_handler, create_task. frame. Qed.

Lemma run_task_config before after task :
  preserves config (run_task before after task).
Proof.
  unfold run_task, send_channels. frame. apply preserves_gather.
  apply Forall_fmap, Forall_true. intros p. unfold Socket_send, wrap_send. simpl.
  frame.
Qed.

(** X6: the secret and the port given to [Server.__init__] are never
    changed by anything the server does: after any run they are what they
    were, so that the secret a publisher must present is the configured
    one for good. *)
Theorem config_never_changes (w w' : World) :
  rtc step w w' →
  secret (srv w') = secret (srv w) ∧ port (srv w') = port (srv w).
Proof.
  intros Hsteps. assert (config w' = config w) as [= Hs Hp]; [|done].
  induction Hsteps as [w|w w1 w2 Hstep _ IH]; [done|]. rewrite IH.
  destruct Hstep as [w|w ws m _|w ws _|w req|w before task after _|w ws t].
  - done.
  - apply ws_message_config.
  - done.
  - apply send_handler_config.
  - apply run_task_config.
  - done.
Qed.

Lemma config_never_changes_witness :
  secret (srv world_xyz) = secret (srv (World_init "k"))
  ∧ port (srv world_xyz) = port (srv (World_init "k")).
Proof. apply config_never_changes. exact reachable_xyz. Defined.

(** ** A whole session *)

Lemma ws_loop_cons websocket message rest v flow v' :
  ws_message websocket message v = (Val flow, v') →
  ws_loop websocket (message :: rest) v =
  match flow with
  | Return => (Val tt, v')
  | Continue => ws_loop websocket rest v'
  end.
Proof.
  intros Hrun. cbn [ws_loop]. unfold mbind at 1, M_bind at 1. rewrite Hrun.
  by destruct flow.
Qed.

Lemma data_effect_sockets websocket v v' :
  data_effect websocket v v' → sockets (srv v) ⊆ sockets (srv v').
Proof.
  intros [l|chs l _ _|s chs l _ _]; simpl; [done| |done].
  apply union_subseteq_r.
Qed.

Lemma ws_loop_no_close websocket messages v :
  no_close messages →
  sockets (srv v) ⊆ sockets (srv (ws_loop websocket messages v).2)
  ∧ handlers (ws_loop websocket messages v).2 !! websocket = None.
Proof.
  intros Hno. revert v.
  induction Hno as [|message rest Hty _ IH]; intros v.
  { simpl. split; [done|apply lookup_delete_eq]. }
  destruct (ws_message_data websocket message v Hty) as (v' & Hrun & Heff).
  rewrite (ws_loop_cons _ _ _ _ _ _ Hrun).
  destruct (IH v') as [Hsub Hstop]. split; [|done].
  etrans; [|exact Hsub]. by apply (data_effect_sockets websocket).
Qed.

(** X8: only a message of type CLOSE takes a connection out of the
    registry.  When the messages a handler still gets contain none, the
    handler returns at the end of the iteration and every connection that
    was registered, the session's own included, is registered still. *)
Theorem session_without_close_keeps_connections
    (w : World) (websocket s : ref) (messages : list WSMessage) :
  no_close messages →
  s ∈ sockets (srv w) →
  let w' := (ws_loop websocket messages w).2 in
  s ∈ sockets (srv w') ∧ ¬ running w' websocket.
Proof.
  intros Hno Hin. simpl.
  destruct (ws_loop_no_close websocket messages w Hno) as [Hsub Hstop].
  split; [by apply Hsub|]. intros [x Hx]. congruence.
Qed.

Lemma session_without_close_keeps_connections_witness :
  let w' := (ws_loop 4 [subscribe [JStr "b"]; mkMessage ERROR None] world_xyz).2 in
  5 ∈ sockets (srv w') ∧ ¬ running w' 4.
Proof.
  apply (session_without_close_keeps_connections world_xyz 4 5).
  - repeat constructor; discriminate.
  - by vm_compute.
Defined.

Lemma yielded_no_close received : no_close (yielded received).
Proof.
  induction received as [|message rest IH]; simpl; [constructor|].
  destruct (ends_iteration (msg_type message)) eqn:Hend; [constructor|].
  constructor; [|done]. intros Hty. by rewrite Hty in Hend.
Qed.

(** X7: whatever a websocket receives, close frames included, the session
    never takes a connection out of the registry: the iteration ends at
    the close frame without yielding it, the branch that removes is not
    run, and when the handler has returned every connection that was
    registered, the session's own included, is registered still. *)
Theorem closed_session_keeps_connections
    (w : World) (websocket s : ref) (received : list WSMessage) :
  s ∈ sockets (srv w) →
  let w' := (ws_loop websocket (yielded received) w).2 in
  s ∈ sockets (srv w') ∧ ¬ running w' websocket.
Proof.
  intros Hin. simpl.
  destruct (ws_loop_no_close websocket (yielded received) w
              (yielded_no_close received)) as [Hsub Hstop].
  split; [by apply Hsub|]. intros [x Hx]. congruence.
Qed.

Lemma closed_session_keeps_connections_witness :
  let w' := (ws_loop 4 (yielded [subscribe [JStr "b"]; close_frame;
                                 subscribe [JStr "c"]]) world_xyz).2 in
  5 ∈ sockets (srv w') ∧ ¬ running w' 4.
Proof.
  apply (closed_session_keeps_connections world_xyz 4 5). by vm_compute.
Defined.

(** ** More on single messages *)

(** X9: a TEXT message that does not parse is answered by the failure
    acknowledgment [Invalid JSON.] and by nothing else: the session, the
    registry and the connections are untouched, and the loop goes on with
    the next message. *)
Theorem invalid_json_answered
    (w : World) (websocket : ref) (rest : list WSMessage) :
  status w websocket = TOpen →
  let message := mkMessage TEXT None in
  let w' := with_trace (λ t, t ++ [Sent websocket (AckError "Invalid JSON.")]) w in
  ws_message websocket message w = (Val Continue, w')
  ∧ ws_loop websocket (message :: rest) w = ws_loop websocket rest w'.
Proof.
  intros Hopen message w'.
  assert (ws_message websocket message w = (Val Continue, w')) as Hrun.
  { run_handler. by rewrite Hopen. }
  split; [done|]. by rewrite (ws_loop_cons _ _ _ _ _ _ Hrun).
Qed.

Lemma invalid_json_answered_witness :
  let message := mkMessage TEXT None in
  let w' := with_trace (λ t, t ++ [Sent 0 (AckError "Invalid JSON.")]) world_xyz in
  ws_message 0 message world_xyz = (Val Continue, w')
  ∧ ws_loop 0 [message; subscribe [JStr "b"]] world_xyz
    = ws_loop 0 [subscribe [JStr "b"]] w'.
Proof.
  apply (invalid_json_answered world_xyz 0 [subscribe [JStr "b"]]). reflexivity.
Defined.

(** X10: the first valid declaration of a session registers it, whether
    or not the acknowledgment can be written: a new connection with
    exactly the declared channel set, bound to the session's websocket, is
    added to the registry and kept by the handler.  The success
    acknowledgment with the channel set follows on an open transport; on a
    dead one the failure of the write is logged, and the registration
    stands. *)
Theorem first_declaration_registers
    (w : World) (websocket : ref) (kv : list (string * json))
    (l : list json) (chs : gset pykey) :
  mjoin (handlers w !! websocket) = None →
  Py.assoc "channels" kv = Some (JArr l) →
  l ≠ [] →
  Py.set (JArr l) = Val chs →
  ws_message websocket (mkMessage TEXT (Some (JObj kv))) w =
  (Val Continue,
   with_trace
     (λ t, t ++ [match status w websocket with
                 | TOpen => Sent websocket (AckOk chs)
                 | TReset => Logged ConnectionResetError
                 | TFail => Logged RuntimeError
                 end])
     (register websocket chs w)).
Proof.
  intros Hlocal Hkv Hne Hset. run_handler. rewrite Hkv. simpl in *.
  rewrite Hset. destruct l as [|x l]; [done|]. simpl. rewrite Hlocal. simpl.
  unfold status. simpl. by destruct (default TOpen (net w !! websocket)).
Qed.

Lemma first_declaration_registers_witness :
  let w := (ws_open world_xyz).2 in
  ws_message 6 (subscribe [JStr "a"; JStr "a"; JNum 7]) w =
  (Val Continue,
   with_trace (λ t, t ++ [Sent 6 (AckOk {[KStr "a"; KNum 7]})])
     (register 6 {[KStr "a"; KNum 7]} w)).
Proof.
  apply (first_declaration_registers (ws_open world_xyz).2 6
           [("channels", JArr [JStr "a"; JStr "a"; JNum 7])]
           [JStr "a"; JStr "a"; JNum 7]).
  - reflexivity.
  - reflexivity.
  - discriminate.
  - reflexivity.
Defined.

(** X11: when [set(channels)] raises, because [channels] is a number, a
    boolean or null, or a list with a list or an object among its
    elements, the client gets no acknowledgment at all, not even for a
    falsy [channels]: [set] is called before the checks.  The [TypeError]
    is logged, nothing else changes and the loop goes on. *)
Theorem unusable_channels_only_logged
    (w : World) (websocket : ref) (kv : list (string * json)) (e : exn) :
  Py.set (default (JArr []) (Py.assoc "channels" kv)) = Raise e →
  ws_message websocket (mkMessage TEXT (Some (JObj kv))) w =
  (Val Continue, with_trace (λ t, t ++ [Logged TypeError]) w).
Proof.
  intros Hset. pose proof (set_raises_TypeError _ _ Hset) as ->.
  run_handler. by rewrite Hset.
Qed.

Lemma unusable_channels_only_logged_witness :
  ws_message 0 (mkMessage TEXT (Some (JObj [("channels", JNull)]))) world_xyz =
  (Val Continue, with_trace (λ t, t ++ [Logged TypeError]) world_xyz).
Proof.
  apply (unusable_channels_only_logged world_xyz 0 [("channels", JNull)] TypeError).
  reflexivity.
Defined.

(** X12: a message that is neither TEXT nor CLOSE (binary data, ping,
    pong, an error) is dropped: nothing is sent, logged or changed, and
    the loop goes on, whatever the message carries. *)
Theorem other_message_types_dropped
    (w : World) (websocket : ref) (message : WSMessage) (rest : list WSMessage) :
  msg_type message ≠ TEXT →
  msg_type message ≠ CLOSE →
  ws_message websocket message w = (Val Continue, w)
  ∧ ws_loop websocket (message :: rest) w = ws_loop websocket rest w.
Proof.
  intros Htext Hclose.
  assert (ws_message websocket message w = (Val Continue, w)) as Hrun.
  { destruct message as [ty js]. simpl in *. by destruct ty. }
  split; [done|]. by rewrite (ws_loop_cons _ _ _ _ _ _ Hrun).
Qed.

Lemma other_message_types_dropped_witness :
  let message := mkMessage BINARY (Some (JObj [("channels", JArr [JStr "q"])])) in
  ws_message 0 message world_xyz = (Val Continue, world_xyz)
  ∧ ws_loop 0 [message; close_frame] world_xyz = ws_loop 0 [close_frame] world_xyz.
Proof.
  apply (other_message_types_dropped world_xyz 0
           (mkMessage BINARY (Some (JObj [("channels", JArr [JStr "q"])])))
           [close_frame]); discriminate.
Defined.

(** ** More on the publish endpoint *)

Ltac run_publish :=
  unfold send_handler, mbind, M_bind, mret, M_ret, gets, req_json, lift, raise,
    create_task, modify;
  simpl.

(** X13: a publish request with the right secret, a non-empty [channels]
    that [set] accepts and a non-empty [event] is answered [HTTPCreated]
    at once: the fan-out to [set(channels)] is put at the end of the
    loop's tasks and nothing is sent yet, so that the answer does not
    depend on who is subscribed. *)
Theorem publish_accepted
    (w : World) (req : Request) (kv : list (string * json))
    (c ev : json) (chs : gset pykey) :
  Authorization req = Some (secret (srv w)) →
  body req = Some (JObj kv) →
  Py.assoc "channels" kv = Some c →
  Py.assoc "event" kv = Some ev →
  Py.truthy c = true →
  Py.truthy ev = true →
  Py.set c = Val chs →
  send_handler req w =
  (Raise HTTPCreated,
   with_srv (set_loop (λ l, l ++ [(chs, ev)]))
     (with_trace (λ t, t ++ [BodyRead]) w)).
Proof.
  intros Hauth Hbody Hc Hev Htc Hte Hset. run_publish.
  rewrite bool_decide_eq_false_2 by (intros Hne; by apply Hne).
  rewrite Hbody. simpl. rewrite Hc, Hev. simpl. rewrite Htc, Hte. simpl.
  by rewrite Hset.
Qed.

Lemma publish_accepted_witness :
  send_handler (mkRequest (Some "k") (Some publish_a)) world_xyz =
  (Raise HTTPCreated,
   with_srv (set_loop (λ l, l ++ [({[KStr "a"]}, event_x)]))
     (with_trace (λ t, t ++ [BodyRead]) world_xyz)).
Proof.
  apply (publish_accepted world_xyz (mkRequest (Some "k") (Some publish_a))
           [("channels", JArr [JStr "a"]); ("event", event_x)]
           (JArr [JStr "a"]) event_x); reflexivity.
Defined.

Ltac shape_error :=
  left; eexists; split; [|first [by left | by right]]; discriminate.

Lemma send_handler_shape req w :
  (∃ e, e ≠ HTTPCreated
        ∧ (send_handler req w = (Raise e, w)
           ∨ send_handler req w
             = (Raise e, with_trace (λ t, t ++ [BodyRead]) w)))
  ∨ (∃ task, send_handler req w =
             (Raise HTTPCreated,
              with_srv (set_loop (λ l, l ++ [task]))
                (with_trace (λ t, t ++ [BodyRead]) w))).
Proof.
  run_publish.
  destruct (bool_decide (Authorization req ≠ Some (secret (srv w))));
    [shape_error|].
  destruct (body req) as [data|]; simpl; [|shape_error].
  destruct data as [| | |s|l|kv]; simpl; try shape_error.
  - destruct (Py.substring "channels" s); simpl; [|shape_error].
    destruct (Py.substring "event" s); simpl; shape_error.
  - destruct (existsb (Py.eq_str "channels") l); simpl; [|shape_error].
    destruct (existsb (Py.eq_str "event") l); simpl; shape_error.
  - destruct (Py.assoc "channels" kv) as [c|]; simpl; [|shape_error].
    destruct (Py.assoc "event" kv) as [ev|]; simpl; [|shape_error].
    destruct (Py.truthy c); simpl; [|shape_error].
    destruct (Py.truthy ev); simpl; [|shape_error].
    destruct (Py.set c) as [chs|e] eqn:Hset; simpl.
    + right. by eexists.
    + apply set_raises_TypeError in Hset as ->. shape_error.
Qed.

(** X14: what the publish endpoint does to the server, for every request:
    it always ends by raising; it never touches the handles, the registry,
    the connections or the sessions, and never writes a frame; and it
    schedules a fan-out, exactly one, if and only if it answers
    [HTTPCreated]. *)
Theorem send_handler_effects (w : World) (req : Request) :
  let out := send_handler req w in
  ∃ e, out.1 = Raise e
       ∧ core out.2 = core w
       ∧ (∀ websocket, outbox out.2 websocket = outbox w websocket)
       ∧ ((e = HTTPCreated ∧ ∃ task, loop (srv out.2) = loop (srv w) ++ [task])
          ∨ (e ≠ HTTPCreated ∧ loop (srv out.2) = loop (srv w))).
Proof.
  simpl.
  assert (∀ websocket,
            outbox (with_trace (λ t, t ++ [BodyRead]) w) websocket
            = outbox w websocket) as Hbox.
  { intros websocket. rewrite outbox_with_trace. apply app_nil_r. }
  destruct (send_handler_shape req w) as [(e & Hne & [-> | ->])|(task & ->)];
    simpl.
  - exists e. repeat split; try done. by right.
  - exists e. repeat split; try done. by right.
  - exists HTTPCreated. repeat split; try done. left. split; [done|]. by exists task.
Qed.

(** X15: with the right secret, a body that does not parse, or that
    parses to null, a boolean or a number, is not answered [HTTPBadRequest]:
    the exception of the parser, or the [TypeError] of the membership
    test, leaves the handler.  The body has been read and nothing is
    scheduled. *)
Theorem broken_body_escapes (w : World) (req : Request) :
  Authorization req = Some (secret (srv w)) →
  body req = None ∨ body req = Some JNull
  ∨ (∃ b, body req = Some (JBool b)) ∨ (∃ n, body req = Some (JNum n)) →
  send_handler req w =
  (Raise (match body req with Some _ => TypeError | None => JSONDecodeError end),
   with_trace (λ t, t ++ [BodyRead]) w).
Proof.
  intros Hauth Hbody. run_publish.
  rewrite bool_decide_eq_false_2 by (intros Hne; by apply Hne).
  destruct Hbody as [-> | [-> | [[b ->] | [n ->]]]]; done.
Qed.

Lemma broken_body_escapes_witness :
  send_handler (mkRequest (Some "k") None) world_xyz =
  (Raise JSONDecodeError, with_trace (λ t, t ++ [BodyRead]) world_xyz).
Proof.
  apply (broken_body_escapes world_xyz (mkRequest (Some "k") None)).
  - reflexivity.
  - by left.
Defined.

(** ** The entry point *)

Lemma cleanup_loop_spec (l : list nat) (st : Main.Logging) :
  Main.root_handlers st = l →
  Main.root_handlers (Main.cleanup_loop l st) = []
  ∧ Main.closed (Main.cleanup_loop l st) = list_to_set l ∪ Main.closed st.
Proof.
  revert st. induction l as [|h rest IH]; intros st Hl; simpl.
  { split; [done|]. by rewrite (left_id_L ∅ (∪)). }
  destruct (IH (Main.removeHandler h (Main.close h st))) as [Hnil Hclosed].
  { unfold Main.removeHandler, Main.close. simpl. rewrite Hl.
    rewrite decide_True by (apply elem_of_cons; by left).
    simpl. by rewrite decide_True. }
  split; [done|]. rewrite Hclosed.
  unfold Main.removeHandler, Main.close. simpl.
  case_decide; simpl; by rewrite (assoc_L (∪)), (comm_L (∪) _ {[h]}).
Qed.

(** X16: when the block under [setup_logging] is left, normally or by an
    exception, or when the log file could not be opened, the root logger
    has no handler any more: the [finally] closes and removes every
    handler it finds, the ones that were installed before or by the block
    included, and not only the file handler of [setup_logging].  The way
    the block ended is handed on unchanged. *)
Theorem setup_logging_removes_all_handlers
    (file_opens : bool) (block : Main.Logging → Main.Exit * Main.Logging)
    (st : Main.Logging) :
  let out := Main.setup_logging file_opens block st in
  Main.root_handlers out.2 = []
  ∧ (file_opens = false →
     out.1 = Main.Raised "OSError"
     ∧ Main.closed out.2 = list_to_set (Main.root_handlers st) ∪ Main.closed st)
  ∧ (file_opens = true →
     ∃ st', block (Main.addHandler (Main.next_handler st)
                     (Main.mkLogging (Main.root_handlers st) (Main.closed st)
                        (Some "INFO") (S (Main.next_handler st))))
            = (out.1, st')
            ∧ Main.closed out.2
              = list_to_set (Main.root_handlers st') ∪ Main.closed st').
Proof.
  simpl. unfold Main.setup_logging. destruct file_opens; simpl.
  - destruct (block _) as [exit st3] eqn:Hblock. simpl.
    destruct (cleanup_loop_spec (Main.root_handlers st3) st3 eq_refl)
      as [Hnil Hclosed].
    split; [done|]. split; [done|]. intros _. by exists st3.
  - destruct (cleanup_loop_spec (Main.root_handlers st)
                (Main.mkLogging (Main.root_handlers st) (Main.closed st)
                   (Some "INFO") (Main.next_handler st)) eq_refl)
      as [Hnil Hclosed].
    split; [done|]. split; [|done]. intros _. done.
Qed.
